(** * TaskScheduler (src/utils/schedule.ts): a shallow embedding and its properties

    The scheduler keeps two maps, [tasks] (the registry) and [scheduledJobs]
    (the handle and fire time of the last timer armed for each name).  Its
    methods mutate these maps, read the wall clock, arm and clear run-time
    timers, and write to the console.  All of that is threaded through a
    state monad whose state survives a [throw], as object fields do in
    JavaScript. *)

From Stdlib Require Import ZArith Lia.
From stdpp Require Import base option strings gmap fin_maps.

Local Open Scope Z_scope.

(** ** Values *)

(** A JavaScript number as far as the scheduler meets one: a whole number,
    or NaN. *)
Inductive Number :=
| Finite (z : Z)
| NaN.
Coercion Finite : Z >-> Number.

(** A [Date] is its time value: the milliseconds since the epoch, or NaN
    for an Invalid Date. *)
Definition Date := Number.

(** [new Date(z)] keeps a time value within 8.64e15 milliseconds of the
    epoch and is an Invalid Date otherwise. *)
Definition TimeClip (z : Z) : Date :=
  if Z.abs z <=? 8640000000000000 then Finite z else NaN.

(** [date <= now] for a date and the time value of a valid one: false when
    [date] is invalid, as every comparison with NaN is. *)
Definition notAfter (date : Date) (now : Z) : bool :=
  match date with
  | Finite t => t <=? now
  | NaN => false
  end.

(** [a - now] for a number and a whole number. *)
Definition minus (a : Number) (now : Z) : Number :=
  match a with
  | Finite t => Finite (t - now)
  | NaN => NaN
  end.

(** What a [throw] carries.  The scheduler throws plain [Error]s that
    differ by their message; one constructor per message.  [TypeError] is
    the run-time's own error for a property read on [undefined];
    [Foreign] is anything thrown by code the scheduler calls but does not
    own (a task's callback, a cron evaluator). *)
Inductive Thrown :=
| TaskAlreadyExists (taskName : string)   (* `Task ${taskName} already exists` *)
| TimeNotInFuture                         (* 'Scheduled time must be in the future' *)
| TaskNotFound (taskName : string)        (* `Task ${taskName} not found` *)
| InvalidIntervalConfiguration            (* 'Invalid interval configuration' *)
| UnsupportedIntervalUnit (unit : string) (* `Unsupported interval unit: ${unit}` *)
| TypeError
| Foreign (what : string).

Inductive Completion (A : Type) :=
| Normal (a : A)
| Throw (e : Thrown).
Arguments Normal {A} a.
Arguments Throw {A} e.

(** [Interval] is a union of three object shapes that the code tells apart
    by the presence of properties (['next' in interval], ...), so an
    interval is modelled as the bag of the five properties it may carry.
    [next] is the opaque [() => Date]; it is handed the clock reading of
    the moment it is called, gives a date, valid or not, or throws. *)
Module Interval.
Record t := mk {
  next : option (Z -> Completion Date);
  type : option string;
  date : option Date;
  unit : option string;
  value : option Z }.

(** [{ unit, value }] *)
Definition every (u : string) (v : Z) : t := mk None None None (Some u) (Some v).
(** [{ type: 'once', date }] *)
Definition once (d : Date) : t := mk None (Some "once"%string) (Some d) None None.
(** [{ next }] *)
Definition computed (f : Z -> Completion Date) : t := mk (Some f) None None None None.
End Interval.

Module ScheduleOptions.
Record t := mk {
  type : option string;
  retryOnError : option bool;
  retryDelay : option Z }.

(** [{}] *)
Definition empty : t := mk None None None.
End ScheduleOptions.

Inductive Status := scheduled | paused.

Definition Status_eqb (a b : Status) : bool :=
  match a, b with
  | scheduled, scheduled | paused, paused => true
  | _, _ => false
  end.

(** What [getTaskStatus] returns when the task exists. *)
Module TaskStatus.
Record t := mk { name : string; status : Status; nextRun : option Date }.
End TaskStatus.

(** A callback is [() => void].  What the scheduler can see of a call of it
    is what it does to the scheduler before it returns or throws: it may
    call the scheduler's own methods, one after the other, and go on
    according to what each call gave.  [Calls c k] calls the method [c] and
    goes on as [k] of its completion (a [Throw] that the callback does not
    catch is [k (Throw e) = Raises e]); [Asks n k] calls [getTaskStatus].
    A callback that calls nothing is [Returns] or [Raises e]. *)
Inductive Callback :=
| Returns
| Raises (e : Thrown)
| Calls (c : Call) (k : Completion unit -> Callback)
| Asks (taskName : string) (k : option TaskStatus.t -> Callback)
with Call :=
| ScheduleTask (taskName : string) (callback : Callback)
    (interval : Interval.t) (options : option ScheduleOptions.t)
| ScheduleCron (taskName : string) (callback : Callback)
    (cronExpression : string) (options : option ScheduleOptions.t)
| ScheduleOnce (taskName : string) (callback : Callback) (date : Date)
| CancelTask (taskName : string)
| PauseTask (taskName : string)
| ResumeTask (taskName : string).

Record Task := mkTask {
  callback : Callback;
  interval : Interval.t;
  options : ScheduleOptions.t;
  status : Status }.

Definition with_status (s : Status) (task : Task) : Task :=
  mkTask (callback task) (interval task) (options task) s.

(** An entry of [scheduledJobs]: [{ id, scheduledTime }]. *)
Module Job.
Record t := mk { id : nat; scheduledTime : Date }.
End Job.

(** A timer the run-time still holds: the closure
    [() => this._executeTask(taskName, task)] and the delay it was given. *)
Record PendingTimer := mkTimer {
  forName : string;
  forTask : Task;
  delay : Number }.

(** ** The world

    [tasks] and [scheduledJobs] are the two private fields of the class.
    [timers] is the run-time's set of pending timeouts keyed by handle,
    [handles] the number of handles given out so far, [console] what
    [console.error] received (oldest first), [reads] how many times the
    clock was read.

    A [Task] object is shared between the registry and the closure of its
    timer, and [pauseTask]/[resumeTask] assign to its [status].  The closure
    only ever reads [callback] and [interval], which nothing assigns to, and
    an object that [pauseTask] has marked leaves the registry in the same
    call and is never put back, so keeping a copy of the task in
    [PendingTimer] loses nothing. *)
Record World := mkWorld {
  tasks : gmap string Task;
  scheduledJobs : gmap string Job.t;
  timers : gmap nat PendingTimer;
  handles : nat;
  console : list (string * Thrown);
  reads : nat }.

Definition init : World := mkWorld ∅ ∅ ∅ 0%nat [] 0%nat.

Definition set_tasks (f : gmap string Task -> gmap string Task) (w : World) : World :=
  mkWorld (f (tasks w)) (scheduledJobs w) (timers w) (handles w) (console w) (reads w).
Definition set_scheduledJobs (f : gmap string Job.t -> gmap string Job.t) (w : World) : World :=
  mkWorld (tasks w) (f (scheduledJobs w)) (timers w) (handles w) (console w) (reads w).
Definition set_timers (f : gmap nat PendingTimer -> gmap nat PendingTimer) (w : World) : World :=
  mkWorld (tasks w) (scheduledJobs w) (f (timers w)) (handles w) (console w) (reads w).

(** What the scheduler takes from outside: the clock ([clock k] is the time
    value of what the [k]-th [new Date()] of the run returns), date-fns'
    three additions, and cron-parser's [parseExpression(e).next().toDate()]
    as a function of the expression and of the current time. *)
Record Env := mkEnv {
  clock : nat -> Z;
  addMinutes : Date -> Z -> Date;
  addHours : Date -> Z -> Date;
  addDays : Date -> Z -> Date;
  parseExpression_next : string -> Z -> Completion Date }.

(** ** The monad *)

Definition M (A : Type) : Type := World -> World * Completion A.

Definition ret {A} (a : A) : M A := fun w => (w, Normal a).
Definition throw {A} (e : Thrown) : M A := fun w => (w, Throw e).
Definition bind {A B} (m : M A) (k : A -> M B) : M B :=
  fun w =>
    match m w with
    | (w', Normal a) => k a w'
    | (w', Throw e) => (w', Throw e)
    end.
Definition try_catch {A} (m : M A) (handler : Thrown -> M A) : M A :=
  fun w =>
    match m w with
    | (w', Normal a) => (w', Normal a)
    | (w', Throw e) => handler e w'
    end.
Definition gets {A} (f : World -> A) : M A := fun w => (w, Normal (f w)).
Definition modify (f : World -> World) : M unit := fun w => (f w, Normal tt).
Definition lift {A} (c : Completion A) : M A := fun w => (w, c).

Notation "'let!' x ':=' m 'in' k" := (bind m (fun x => k))
  (at level 10, x name, m at level 100, k at level 200).
Notation "m '>>' k" := (bind m (fun _ => k))
  (at level 100, k at level 200, right associativity).

(** ** The run-time's primitives *)

Section Scheduler.
Context (E : Env).

(** [new Date()], as its time value *)
Definition newDate : M Z :=
  fun w =>
    (mkWorld (tasks w) (scheduledJobs w) (timers w) (handles w) (console w) (S (reads w)),
     Normal (clock E (reads w))).

(** [setTimeout(() => this._executeTask(taskName, task), timeout)] *)
Definition setTimeout (taskName : string) (task : Task) (timeout : Number) : M nat :=
  fun w =>
    (mkWorld (tasks w) (scheduledJobs w)
             (<[handles w := mkTimer taskName task timeout]> (timers w))
             (S (handles w)) (console w) (reads w),
     Normal (handles w)).

(** [clearTimeout(id)] *)
Definition clearTimeout (id : nat) : M unit := modify (set_timers (delete id)).

(** [console.error(`Error executing task ${taskName}:`, error)] *)
Definition console_error (taskName : string) (error : Thrown) : M unit :=
  fun w =>
    (mkWorld (tasks w) (scheduledJobs w) (timers w) (handles w)
             (console w ++ [(taskName, error)]) (reads w),
     Normal tt).

(** [nextRun.getTime()], where [nextRun] may be [undefined] *)
Definition getTime (d : option Date) : M Number :=
  match d with
  | Some t => ret t
  | None => throw TypeError
  end.

(** ** The methods of [TaskScheduler] *)

(** The parameter is the [{ unit, value }] object, here its two fields. *)
Definition _calculateNextRun (unit : string) (value : Z) : M Date :=
  let! now := newDate in
  if String.eqb unit "minutes" then ret (addMinutes E now value)
  else if String.eqb unit "hours" then ret (addHours E now value)
  else if String.eqb unit "days" then ret (addDays E now value)
  else throw (UnsupportedIntervalUnit unit).

(** ['type' in interval && interval.type === 'once'] *)
Definition is_once (i : Interval.t) : bool :=
  match Interval.type i with
  | Some s => String.eqb s "once"
  | None => false
  end.

Definition _scheduleNextRun (taskName : string) : M unit :=
  let! found := gets (fun w => tasks w !! taskName) in
  match found with
  | None => ret tt
  | Some task =>
      if Status_eqb (status task) paused then ret tt
      else
        let! now := newDate in
        let interval := interval task in
        let! nextRun :=
          match Interval.next interval with
          | Some next => let! t := newDate in let! d := lift (next t) in ret (Some d)
          | None =>
              if is_once interval then ret (Interval.date interval)
              else
                match Interval.unit interval, Interval.value interval with
                | Some unit, Some value =>
                    let! d := _calculateNextRun unit value in ret (Some d)
                | _, _ => throw InvalidIntervalConfiguration
                end
          end in
        let! fire := getTime nextRun in
        let timeout := minus fire now in
        let! scheduledJob := setTimeout taskName task timeout in
        modify (set_scheduledJobs (insert taskName (Job.mk scheduledJob fire)))
  end.

Definition scheduleTask (taskName : string) (callback : Callback)
    (interval : Interval.t) (options : option ScheduleOptions.t) : M string :=
  let! has := gets (fun w => bool_decide (is_Some (tasks w !! taskName))) in
  if has then throw (TaskAlreadyExists taskName)
  else
    let task := mkTask callback interval (default ScheduleOptions.empty options) scheduled in
    modify (set_tasks (insert taskName task)) >>
    _scheduleNextRun taskName >>
    ret taskName.

Definition scheduleCron (taskName : string) (callback : Callback)
    (cronExpression : string) (options : option ScheduleOptions.t) : M string :=
  let cronInterval := Interval.computed (parseExpression_next E cronExpression) in
  let spread := default ScheduleOptions.empty options in
  scheduleTask taskName callback cronInterval
    (Some (ScheduleOptions.mk (Some "cron"%string)
             (ScheduleOptions.retryOnError spread) (ScheduleOptions.retryDelay spread))).

Definition scheduleOnce (taskName : string) (callback : Callback) (date : Date) : M string :=
  let! now := newDate in
  if notAfter date now then throw TimeNotInFuture
  else scheduleTask taskName callback (Interval.once date) None.

Definition cancelTask (taskName : string) : M unit :=
  let! scheduledJob := gets (fun w => scheduledJobs w !! taskName) in
  match scheduledJob with
  | Some job =>
      clearTimeout (Job.id job) >>
      modify (set_scheduledJobs (delete taskName))
  | None => ret tt
  end >>
  modify (set_tasks (delete taskName)).

Definition pauseTask (taskName : string) : M unit :=
  let! found := gets (fun w => tasks w !! taskName) in
  match found with
  | None => throw (TaskNotFound taskName)
  | Some task =>
      modify (set_tasks (insert taskName (with_status paused task))) >>
      cancelTask taskName
  end.

Definition resumeTask (taskName : string) : M unit :=
  let! found := gets (fun w => tasks w !! taskName) in
  match found with
  | None => throw (TaskNotFound taskName)
  | Some task =>
      if Status_eqb (status task) paused then
        modify (set_tasks (insert taskName (with_status scheduled task))) >>
        _scheduleNextRun taskName
      else ret tt
  end.

Definition _getNextRunTime (taskName : string) : M (option Date) :=
  let! scheduledJob := gets (fun w => scheduledJobs w !! taskName) in
  match scheduledJob with
  | None => ret None
  | Some job => ret (Some (Job.scheduledTime job))
  end.

Definition getTaskStatus (taskName : string) : M (option TaskStatus.t) :=
  let! found := gets (fun w => tasks w !! taskName) in
  match found with
  | None => ret None
  | Some task =>
      let! nextRun := _getNextRunTime taskName in
      ret (Some (TaskStatus.mk taskName (status task) nextRun))
  end.

(** A call of a public method, for its effect and its completion. *)
Definition perform (c : Call) : M unit :=
  match c with
  | ScheduleTask n cb i o => scheduleTask n cb i o >> ret tt
  | ScheduleCron n cb e o => scheduleCron n cb e o >> ret tt
  | ScheduleOnce n cb d => scheduleOnce n cb d >> ret tt
  | CancelTask n => cancelTask n
  | PauseTask n => pauseTask n
  | ResumeTask n => resumeTask n
  end.

(** [task.callback()] *)
Fixpoint call (cb : Callback) (w : World) : World * Completion unit :=
  match cb with
  | Returns => (w, Normal tt)
  | Raises e => (w, Throw e)
  | Calls c k => let '(w', r) := perform c w in call (k r) w'
  | Asks n k =>
      match getTaskStatus n w with
      | (w', Normal s) => call (k s) w'
      | (w', Throw e) => (w', Throw e)
      end
  end.

Definition _executeTask (taskName : string) (task : Task) : M unit :=
  try_catch
    (call (callback task) >>
     if is_once (interval task) then
       modify (set_tasks (delete taskName)) >>
       modify (set_scheduledJobs (delete taskName))
     else _scheduleNextRun taskName)
    (fun error => console_error taskName error).

(** The run-time fires the pending timer [id]: the timer is spent and its
    closure runs.  Firing a handle that is not pending does nothing. *)
Definition timerFires (id : nat) : M unit :=
  let! pending := gets (fun w => timers w !! id) in
  match pending with
  | None => ret tt
  | Some t =>
      modify (set_timers (delete id)) >>
      _executeTask (forName t) (forTask t)
  end.

(** ** Runs of the scheduler *)

(** What can happen to a scheduler: a call of one of its public methods
    from outside, or the run-time firing one of its timers. *)
Inductive Event :=
| Method (c : Call)
| TimerFires (id : nat).

(** The world after an event, whether the call returned or threw. *)
Definition step (ev : Event) (w : World) : World :=
  match ev with
  | Method c => fst (perform c w)
  | TimerFires id => fst (timerFires id w)
  end.

Definition run (evs : list Event) (w : World) : World :=
  fold_left (fun w ev => step ev w) evs w.

(** The worlds a scheduler created by [new TaskScheduler()] can be in. *)
Inductive reachable : World -> Prop :=
| reachable_init : reachable init
| reachable_step ev w : reachable w -> reachable (step ev w).

End Scheduler.

Coercion Method : Call >-> Event.

(** ** Vocabulary of the properties *)





(** Nothing of the scheduler or of the run-time differs between [w] and
    [w']; only the clock may have been read. *)
Definition untouched (w w' : World) : Prop :=
  tasks w' = tasks w /\ scheduledJobs w' = scheduledJobs w /\
  timers w' = timers w /\ handles w' = handles w /\ console w' = console w.


(** What holds of every world a scheduler can be in: a recorded job belongs
    to a registered task, no registered task is [paused], the handles that
    are pending or recorded have been given out, and a recorded handle
    that is pending is a timer of the name it is recorded for. *)
Record sound (w : World) : Prop := mkSound {
  jobs_registered :
    forall n j, scheduledJobs w !! n = Some j -> is_Some (tasks w !! n);
  never_paused :
    forall n task, tasks w !! n = Some task -> status task = scheduled;
  handles_fresh :
    forall id t, timers w !! id = Some t -> (id < handles w)%nat;
  jobs_given_out :
    forall n j, scheduledJobs w !! n = Some j -> (Job.id j < handles w)%nat;
  recorded_own :
    forall n j t, scheduledJobs w !! n = Some j -> timers w !! Job.id j = Some t ->
      forName t = n }.













(** ** An environment and worlds for the examples *)

(** The clock starts at 2023-11-14T22:13:20Z and advances by a millisecond
    per reading; minutes and hours are added as date-fns does, days as it
    does in a time zone without clock changes; the cron evaluator knows
    the every-minute expression and rejects the rest. *)
Definition plus (d : Date) (ms : Z) : Date :=
  match d with
  | Finite t => TimeClip (t + ms)
  | NaN => NaN
  end.

Definition utc : Env :=
  mkEnv (fun k => 1700000000000 + Z.of_nat k)
        (fun d n => plus d (n * 60000))
        (fun d n => plus d (n * 3600000))
        (fun d n => plus d (n * 86400000))
        (fun e now =>
           if String.eqb e "* * * * *" then Normal (Finite ((now / 60000 + 1) * 60000))
           else Throw (Foreign "cron-parser")).

Definition every5min : Interval.t := Interval.every "minutes" 5.

(** A recurring task whose callback returns, registered on a new scheduler. *)
Definition registered : World :=
  run utc [Method (ScheduleTask "job" Returns every5min None)] init.

(** The same, then paused. *)
Definition registered_paused : World :=
  run utc [Method (ScheduleTask "job" Returns every5min None); Method (PauseTask "job")] init.

(** A recurring task whose callback throws, registered on a new scheduler;
    then its first timer fired. *)
Definition failing : World :=
  run utc [Method (ScheduleTask "job" (Raises (Foreign "boom")) every5min None)] init.

Definition failing_fired : World := run utc [TimerFires 0] failing.

(** A one-time task, a minute ahead, whose callback throws; then its timer
    fired. *)
Definition failing_once : World :=
  run utc [Method (ScheduleOnce "job" (Raises (Foreign "boom")) 1700000060000)] init.

Definition failing_once_fired : World := run utc [TimerFires 0] failing_once.

(** A world in which "job" sits in the registry as [paused], as
    [resumeTask] expects to find it. *)
Definition held : World :=
  mkWorld {[ "job"%string := mkTask Returns every5min ScheduleOptions.empty paused ]}
          ∅ ∅ 1%nat [] 2%nat.

(** A cron task registered on a new scheduler. *)
Definition ticking : World :=
  run utc [Method (ScheduleCron "tick" Returns "* * * * *" None)] init.







(** The world in which a one-time task has been retired: the name is
    deleted from both maps. *)
Definition retired (n : string) (w : World) : World :=
  mkWorld (delete n (tasks w)) (delete n (scheduledJobs w)) (timers w) (handles w)
          (console w) (reads w).

(** ** Unfolding the monad *)

Ltac unmonad :=
  cbv [bind ret throw gets modify lift try_catch newDate setTimeout clearTimeout
       console_error getTime set_tasks set_scheduledJobs set_timers] in *;
  cbn [fst snd tasks scheduledJobs timers handles console reads] in *.

Lemma untouched_refl w : untouched w w.
Proof. repeat split. Qed.

Lemma newDate_untouched E w : untouched w (fst (newDate E w)).
Proof. repeat split. Qed.

(** *** Arming *)

Lemma scheduleNextRun_absent E n w :
  tasks w !! n = None -> _scheduleNextRun E n w = (w, Normal tt).
Proof. intros H. unfold _scheduleNextRun. unmonad. now rewrite H. Qed.

Lemma scheduleNextRun_paused E n w task :
  tasks w !! n = Some task -> status task = paused ->
  _scheduleNextRun E n w = (w, Normal tt).
Proof. intros H Hs. unfold _scheduleNextRun. unmonad. now rewrite H, Hs. Qed.

(** Arming either leaves scheduler and run-time as they are (the task is
    absent or paused, or computing the fire time threw), or sets one new
    timer for the registered task and records it. *)
Lemma scheduleNextRun_cases E n w :
  let w' := fst (_scheduleNextRun E n w) in
  untouched w w' \/
  exists task fire d,
    tasks w !! n = Some task /\ status task = scheduled /\
    snd (_scheduleNextRun E n w) = Normal tt /\
    tasks w' = tasks w /\
    scheduledJobs w' = <[n := Job.mk (handles w) fire]> (scheduledJobs w) /\
    timers w' = <[handles w := mkTimer n task d]> (timers w) /\
    handles w' = S (handles w) /\
    console w' = console w.
Proof.
  unfold _scheduleNextRun, _calculateNextRun. unmonad.
  destruct (tasks w !! n) as [task|] eqn:Ht; [|left; apply untouched_refl].
  destruct (status task) eqn:Hs; cbn; [|left; apply untouched_refl].
  destruct (Interval.next (interval task)) as [f|].
  - destruct (f _); cbn; [right|left; repeat split].
    eexists _, _, _. repeat split; eauto.
  - destruct (is_once (interval task)).
    + destruct (Interval.date (interval task)); cbn; [right|left; repeat split].
      eexists _, _, _. repeat split; eauto.
    + destruct (Interval.unit (interval task)) as [u|]; [|left; repeat split].
      destruct (Interval.value (interval task)) as [v|]; [|left; repeat split].
      destruct (String.eqb u "minutes"); [cbn; right; eexists _, _, _; repeat split; eauto|].
      destruct (String.eqb u "hours"); [cbn; right; eexists _, _, _; repeat split; eauto|].
      destruct (String.eqb u "days"); [cbn; right; eexists _, _, _; repeat split; eauto|].
      left; repeat split.
Qed.



Lemma scheduleNextRun_console E n w : console (fst (_scheduleNextRun E n w)) = console w.
Proof.
  destruct (scheduleNextRun_cases E n w)
    as [(_ & _ & _ & _ & Hc)|(_ & _ & _ & _ & _ & _ & _ & _ & _ & _ & Hc)]; exact Hc.
Qed.

(** *** What each method does to the world *)

Lemma cancelTask_eq n w :
  cancelTask n w =
  (mkWorld (delete n (tasks w)) (delete n (scheduledJobs w))
           (match scheduledJobs w !! n with
            | Some job => delete (Job.id job) (timers w)
            | None => timers w
            end)
           (handles w) (console w) (reads w),
   Normal tt).
Proof.
  unfold cancelTask. unmonad.
  destruct (scheduledJobs w !! n) eqn:Hj; cbn; [reflexivity|].
  now rewrite (delete_id (scheduledJobs w) n Hj).
Qed.

Lemma pauseTask_eq n w :
  pauseTask n w =
  match tasks w !! n with
  | Some _ => cancelTask n w
  | None => (w, Throw (TaskNotFound n))
  end.
Proof.
  unfold pauseTask. unmonad.
  destruct (tasks w !! n) eqn:Ht; [|reflexivity].
  change (cancelTask n (set_tasks (insert n (with_status paused t)) w) = cancelTask n w).
  rewrite !cancelTask_eq. unfold set_tasks; cbn.
  now rewrite delete_insert_eq.
Qed.

Lemma scheduleTask_taken E n cb i o w :
  is_Some (tasks w !! n) ->
  scheduleTask E n cb i o w = (w, Throw (TaskAlreadyExists n)).
Proof.
  intros H. unfold scheduleTask. unmonad.
  now rewrite (bool_decide_eq_true_2 _ H).
Qed.

Lemma scheduleTask_fresh E n cb i o w :
  tasks w !! n = None ->
  let task := mkTask cb i (default ScheduleOptions.empty o) scheduled in
  let armed := _scheduleNextRun E n (set_tasks (insert n task) w) in
  scheduleTask E n cb i o w =
  (fst armed, match snd armed with Normal _ => Normal n | Throw e => Throw e end).
Proof.
  intros H. unfold scheduleTask. unmonad.
  assert (Hn : ~ is_Some (tasks w !! n)) by (rewrite H; apply is_Some_None).
  rewrite (bool_decide_eq_false_2 _ Hn).
  change (mkWorld (<[n:=_]> (tasks w)) _ _ _ _ _)
    with (set_tasks (insert n (mkTask cb i (default ScheduleOptions.empty o) scheduled)) w).
  now destruct (_scheduleNextRun E n _) as [w' [[]|e]].
Qed.

Lemma scheduleOnce_eq E n cb d w :
  scheduleOnce E n cb d w =
  if notAfter d (clock E (reads w)) then (fst (newDate E w), Throw TimeNotInFuture)
  else scheduleTask E n cb (Interval.once d) None (fst (newDate E w)).
Proof.
  unfold scheduleOnce. cbv [bind newDate throw fst].
  now destruct (notAfter d (clock E (reads w))).
Qed.

Lemma resumeTask_scheduled E n w task :
  tasks w !! n = Some task -> status task = scheduled ->
  resumeTask E n w = (w, Normal tt).
Proof. intros H Hs. unfold resumeTask. unmonad. now rewrite H, Hs. Qed.

Lemma resumeTask_absent E n w :
  tasks w !! n = None -> resumeTask E n w = (w, Throw (TaskNotFound n)).
Proof. intros H. unfold resumeTask. cbv [bind gets]. now rewrite H. Qed.

Lemma getTaskStatus_absent n w :
  tasks w !! n = None -> getTaskStatus n w = (w, Normal None).
Proof. intros H. unfold getTaskStatus. cbv [bind gets]. now rewrite H. Qed.

Lemma getTaskStatus_present n w task :
  tasks w !! n = Some task ->
  getTaskStatus n w =
  (w, Normal (Some (TaskStatus.mk n (status task) (Job.scheduledTime <$> scheduledJobs w !! n)))).
Proof.
  intros H. unfold getTaskStatus, _getNextRunTime. cbv [bind gets]. rewrite H.
  now destruct (scheduledJobs w !! n).
Qed.

Lemma getTaskStatus_reads n w : exists s, getTaskStatus n w = (w, Normal s).
Proof.
  destruct (tasks w !! n) as [task|] eqn:Ht.
  - rewrite (getTaskStatus_present n w task Ht). eauto.
  - rewrite (getTaskStatus_absent n w Ht). eauto.
Qed.

(** The world after a call of a public method. *)
Lemma perform_world E c w :
  fst (perform E c w) =
  match c with
  | ScheduleTask n cb i o => fst (scheduleTask E n cb i o w)
  | ScheduleCron n cb e o => fst (scheduleCron E n cb e o w)
  | ScheduleOnce n cb d => fst (scheduleOnce E n cb d w)
  | CancelTask n => fst (cancelTask n w)
  | PauseTask n => fst (pauseTask n w)
  | ResumeTask n => fst (resumeTask E n w)
  end.
Proof.
  destruct c as [n cb i o|n cb e o|n cb d|n|n|n]; cbn [perform]; try reflexivity;
    unfold bind.
  - now destruct (scheduleTask E n cb i o w) as [w' [a|e]].
  - now destruct (scheduleCron E n cb e o w) as [w' [a|e']].
  - now destruct (scheduleOnce E n cb d w) as [w' [a|e]].
Qed.

(** The world after a dispatch, by what the callback did. *)
Lemma executeTask_eq E n task w :
  _executeTask E n task w =
  match call E (callback task) w with
  | (w1, Normal _) =>
      if is_once (interval task) then (retired n w1, Normal tt)
      else try_catch (_scheduleNextRun E n) (console_error n) w1
  | (w1, Throw e) => console_error n e w1
  end.
Proof.
  unfold _executeTask. cbv [bind try_catch modify].
  destruct (call E (callback task) w) as [w1 [[]|e]]; [|reflexivity].
  destruct (is_once (interval task)); [reflexivity|].
  now destruct (_scheduleNextRun E n w1) as [w' [[]|e']].
Qed.

Lemma executeTask_raises E n e i o s w :
  _executeTask E n (mkTask (Raises e) i o s) w =
  (mkWorld (tasks w) (scheduledJobs w) (timers w) (handles w)
           (console w ++ [(n, e)]) (reads w),
   Normal tt).
Proof. reflexivity. Qed.


Lemma executeTask_returns_again E n i o s w :
  is_once i = false ->
  _executeTask E n (mkTask Returns i o s) w =
  try_catch (_scheduleNextRun E n) (console_error n) w.
Proof. intros H. rewrite executeTask_eq. cbn. now rewrite H. Qed.

(** *** The invariant of all runs *)

Lemma sound_same w w' :
  tasks w' = tasks w -> scheduledJobs w' = scheduledJobs w ->
  timers w' = timers w -> handles w' = handles w ->
  sound w -> sound w'.
Proof.
  intros Ht Hj Hp Hh [I1 I2 I3 I4 I5].
  split; rewrite ?Ht, ?Hj, ?Hp, ?Hh; assumption.
Qed.

Lemma sound_untouched w w' : untouched w w' -> sound w -> sound w'.
Proof. intros (Ht & Hj & Hp & Hh & _). now apply sound_same. Qed.

Lemma sound_init : sound init.
Proof.
  split; cbn; intros *; rewrite lookup_empty; discriminate.
Qed.

Lemma scheduleNextRun_sound E n w : sound w -> sound (fst (_scheduleNextRun E n w)).
Proof.
  intros Hs.
  destruct (scheduleNextRun_cases E n w)
    as [Hsame|(task & fire & d & Ht & _ & _ & Et & Ej & Ep & Eh & _)].
  { now apply (sound_untouched w). }
  destruct Hs as [I1 I2 I3 I4 I5].
  split; rewrite ?Et, ?Ej, ?Ep, ?Eh.
  - intros n' j. destruct (decide (n = n')) as [<-|Hne].
    + now rewrite Ht.
    + rewrite lookup_insert_ne by assumption. apply I1.
  - apply I2.
  - intros id t. destruct (decide (handles w = id)) as [<-|Hne].
    + lia.
    + rewrite lookup_insert_ne by assumption. intros Hp.
      specialize (I3 _ _ Hp). lia.
  - intros n' j. destruct (decide (n = n')) as [<-|Hne].
    + rewrite lookup_insert_eq. intros [= <-]. cbn. lia.
    + rewrite lookup_insert_ne by assumption. intros Hj.
      specialize (I4 _ _ Hj). lia.
  - intros n' j t. destruct (decide (n = n')) as [<-|Hne].
    + rewrite lookup_insert_eq. intros [= <-]. cbn.
      rewrite lookup_insert_eq. now intros [= <-].
    + rewrite lookup_insert_ne by assumption. intros Hj.
      pose proof (I4 _ _ Hj) as Hlt.
      rewrite lookup_insert_ne by lia. now apply I5.
Qed.

Lemma registered_sound n task w :
  status task = scheduled -> sound w -> sound (set_tasks (insert n task) w).
Proof.
  intros Hst [I1 I2 I3 I4 I5]. split; cbn; try assumption.
  - intros n' j Hj. destruct (decide (n = n')) as [<-|Hne].
    + rewrite lookup_insert_eq. eauto.
    + rewrite lookup_insert_ne by assumption. now apply (I1 n' j).
  - intros n' task'. destruct (decide (n = n')) as [<-|Hne].
    + rewrite lookup_insert_eq. now intros [= <-].
    + rewrite lookup_insert_ne by assumption. apply I2.
Qed.

Lemma scheduleTask_sound E n cb i o w :
  sound w -> sound (fst (scheduleTask E n cb i o w)).
Proof.
  intros Hs. destruct (tasks w !! n) as [task|] eqn:Ht.
  - rewrite scheduleTask_taken by (rewrite Ht; eauto). exact Hs.
  - rewrite scheduleTask_fresh by assumption. cbn [fst].
    apply scheduleNextRun_sound. now apply registered_sound.
Qed.

Lemma cancelTask_timers n w id t :
  timers (fst (cancelTask n w)) !! id = Some t -> timers w !! id = Some t.
Proof.
  rewrite cancelTask_eq. cbn.
  destruct (scheduledJobs w !! n); [|tauto].
  intros Hp. apply lookup_delete_Some in Hp. tauto.
Qed.

Lemma cancelTask_sound n w : sound w -> sound (fst (cancelTask n w)).
Proof.
  intros [I1 I2 I3 I4 I5]. split.
  - rewrite cancelTask_eq. cbn. intros n' j. destruct (decide (n = n')) as [<-|Hne].
    + now rewrite lookup_delete_eq.
    + rewrite !lookup_delete_ne by assumption. apply I1.
  - rewrite cancelTask_eq. cbn. intros n' task Ht.
    apply lookup_delete_Some in Ht. now apply (I2 n').
  - intros id t Hp. apply cancelTask_timers in Hp.
    rewrite cancelTask_eq. cbn. now apply (I3 id t).
  - rewrite cancelTask_eq. cbn. intros n' j Hj.
    apply lookup_delete_Some in Hj. now apply (I4 n').
  - intros n' j t Hj Hp. apply cancelTask_timers in Hp.
    rewrite cancelTask_eq in Hj. cbn in Hj.
    apply lookup_delete_Some in Hj. now apply (I5 n' j t).
Qed.

Lemma resumeTask_sound E n w : sound w -> resumeTask E n w = (w, Normal tt) \/
                                          resumeTask E n w = (w, Throw (TaskNotFound n)).
Proof.
  intros Hs. destruct (tasks w !! n) as [task|] eqn:Ht.
  - left. apply (resumeTask_scheduled E n w task Ht). exact (never_paused w Hs n task Ht).
  - right. now apply resumeTask_absent.
Qed.

Lemma perform_sound E c w : sound w -> sound (fst (perform E c w)).
Proof.
  intros Hs. rewrite perform_world.
  destruct c as [n cb i o|n cb e o|n cb d|n|n|n].
  - now apply scheduleTask_sound.
  - now apply scheduleTask_sound.
  - rewrite scheduleOnce_eq.
    assert (Hs' : sound (fst (newDate E w)))
      by exact (sound_untouched _ _ (newDate_untouched E w) Hs).
    destruct (notAfter d (clock E (reads w))); [exact Hs'|].
    now apply scheduleTask_sound.
  - now apply cancelTask_sound.
  - rewrite pauseTask_eq. destruct (tasks w !! n); [|assumption].
    now apply cancelTask_sound.
  - now destruct (resumeTask_sound E n w Hs) as [-> | ->].
Qed.

(** What every public method keeps, a callback keeps. *)
Lemma call_keeps E (P : World -> Prop) :
  (forall c w, P w -> P (fst (perform E c w))) ->
  forall cb w, P w -> P (fst (call E cb w)).
Proof.
  intros Hstep. induction cb as [|e|c k IH|n k IH]; intros w Hw; cbn [call].
  - exact Hw.
  - exact Hw.
  - specialize (Hstep c w Hw). destruct (perform E c w) as [w' r]. now apply IH.
  - destruct (getTaskStatus_reads n w) as [s ->]. now apply IH.
Qed.

Lemma call_sound E cb w : sound w -> sound (fst (call E cb w)).
Proof. apply call_keeps. intros c w'. apply perform_sound. Qed.

Lemma retired_sound n w : sound w -> sound (retired n w).
Proof.
  intros [I1 I2 I3 I4 I5]. split; cbn; try assumption.
  - intros n' j Hj. apply lookup_delete_Some in Hj as [Hne Hj].
    rewrite lookup_delete_ne by assumption. now apply (I1 n' j).
  - intros n' task Ht. apply lookup_delete_Some in Ht. now apply (I2 n').
  - intros n' j Hj. apply lookup_delete_Some in Hj. now apply (I4 n').
  - intros n' j t Hj. apply lookup_delete_Some in Hj. now apply (I5 n').
Qed.

Lemma logged_sound E n w :
  sound w -> sound (fst (try_catch (_scheduleNextRun E n) (console_error n) w)).
Proof.
  intros Hs. pose proof (scheduleNextRun_sound E n w Hs) as Hs'.
  unfold try_catch. destruct (_scheduleNextRun E n w) as [w' [[]|e]]; cbn in *.
  - assumption.
  - now apply (sound_same w').
Qed.

Lemma executeTask_sound E n task w : sound w -> sound (fst (_executeTask E n task w)).
Proof.
  intros Hs. rewrite executeTask_eq.
  pose proof (call_sound E (callback task) w Hs) as Hs1.
  destruct (call E (callback task) w) as [w1 [[]|e]]; cbn [fst] in Hs1.
  - destruct (is_once (interval task)); [now apply retired_sound | now apply logged_sound].
  - now apply (sound_same w1).
Qed.

Lemma fired_sound id w : sound w -> sound (set_timers (delete id) w).
Proof.
  intros [I1 I2 I3 I4 I5]. split; cbn; try assumption.
  - intros id' t Hp. apply lookup_delete_Some in Hp. now apply (I3 id' t).
  - intros n j t Hj Hp. apply lookup_delete_Some in Hp. now apply (I5 n j t).
Qed.

Lemma timerFires_world E id w :
  fst (timerFires E id w) =
  match timers w !! id with
  | Some t => fst (_executeTask E (forName t) (forTask t) (set_timers (delete id) w))
  | None => w
  end.
Proof.
  unfold timerFires. cbv [bind gets modify]. now destruct (timers w !! id).
Qed.

Lemma step_sound E ev w : sound w -> sound (step E ev w).
Proof.
  intros Hs. destruct ev as [c|id]; cbn [step].
  - now apply perform_sound.
  - rewrite timerFires_world. destruct (timers w !! id) as [t|]; [|exact Hs].
    apply executeTask_sound. now apply fired_sound.
Qed.

Lemma reachable_sound E w : reachable E w -> sound w.
Proof.
  induction 1 as [|ev w _ IH]; [apply sound_init | now apply step_sound].
Qed.

Lemma run_reachable E evs w : reachable E w -> reachable E (run E evs w).
Proof.
  revert w. induction evs as [|ev evs IH]; intros w Hw; cbn; [assumption|].
  apply IH. now constructor.
Qed.


(** *** The invariant of quiet runs *)


















(** *** Arming a recurring task *)






Lemma scheduleNextRun_once E n w task d :
  tasks w !! n = Some task -> status task = scheduled ->
  interval task = Interval.once d ->
  _scheduleNextRun E n w =
  (mkWorld (tasks w)
           (<[n := Job.mk (handles w) d]> (scheduledJobs w))
           (<[handles w := mkTimer n task (minus d (clock E (reads w)))]> (timers w))
           (S (handles w)) (console w) (S (reads w)),
   Normal tt).
Proof.
  intros Ht Hs Hi. unfold _scheduleNextRun.
  cbv [bind gets]. rewrite Ht, Hs, Hi. reflexivity.
Qed.

Lemma scheduleNextRun_computed E n w task f d :
  tasks w !! n = Some task -> status task = scheduled ->
  Interval.next (interval task) = Some f -> f (clock E (S (reads w))) = Normal d ->
  _scheduleNextRun E n w =
  (mkWorld (tasks w)
           (<[n := Job.mk (handles w) d]> (scheduledJobs w))
           (<[handles w := mkTimer n task (minus d (clock E (reads w)))]> (timers w))
           (S (handles w)) (console w) (S (S (reads w))),
   Normal tt).
Proof.
  intros Ht Hs Hn Hf. unfold _scheduleNextRun.
  cbv [bind gets]. rewrite Ht, Hs, Hn. cbn [Status_eqb].
  cbv [bind newDate lift]. cbn [reads]. rewrite Hf. reflexivity.
Qed.

(** *** Dispatch *)

(** When the callback of a fired timer throws at once, all that happens is
    one line on the console: neither the registry nor [scheduledJobs]
    changes and no timer is set, whatever the interval of the task. *)
Lemma timerFires_raises E id t e w :
  timers w !! id = Some t -> callback (forTask t) = Raises e ->
  timerFires E id w =
  (mkWorld (tasks w) (scheduledJobs w) (delete id (timers w)) (handles w)
           (console w ++ [(forName t, e)]) (reads w),
   Normal tt).
Proof.
  intros Hp He. unfold timerFires. cbv [bind gets modify]. rewrite Hp.
  destruct t as [n [cb i o s] d]. cbn in He. subst cb. reflexivity.
Qed.


(** After [pauseTask] the name is in neither map, so that [resumeTask] and
    a second [pauseTask] do not find it. *)
Lemma pauseTask_forgets n w :
  is_Some (tasks w !! n) ->
  snd (pauseTask n w) = Normal tt /\
  tasks (fst (pauseTask n w)) !! n = None /\
  scheduledJobs (fst (pauseTask n w)) !! n = None.
Proof.
  intros [task Ht]. rewrite pauseTask_eq, Ht, cancelTask_eq. cbn.
  now rewrite !lookup_delete_eq.
Qed.

(** Pausing makes a task unknown to [resumeTask] and to [pauseTask]. *)
Lemma pauseTask_then_not_found E n w :
  is_Some (tasks w !! n) ->
  let w' := fst (pauseTask n w) in
  resumeTask E n w' = (w', Throw (TaskNotFound n)) /\
  pauseTask n w' = (w', Throw (TaskNotFound n)) /\
  getTaskStatus n w' = (w', Normal None).
Proof.
  intros Hn. destruct (pauseTask_forgets n w Hn) as (_ & Hgone & _). cbv zeta.
  split; [now apply resumeTask_absent|].
  split; [now rewrite pauseTask_eq, Hgone | now apply getTaskStatus_absent].
Qed.

(** ** The claims *)

(** C1 (the code departs from it).  A recurring task whose callback throws
    is registered and its timer fires.  The dispatcher returns normally and
    the console receives exactly one line, tagged "job".  But the task is
    not re-armed: no timer is pending afterwards, no handle was given out,
    and [scheduledJobs] still holds the entry of the timer that has just
    fired, with its old fire time, while the task stays [scheduled]. *)
Theorem C1_raising_callback_is_not_rearmed :
  timerFires utc 0 failing = (failing_fired, Normal tt) /\
  console failing = [] /\
  console failing_fired = [("job"%string, Foreign "boom")] /\
  status <$> tasks failing_fired !! "job"%string = Some scheduled /\
  timers failing_fired = ∅ /\
  handles failing_fired = handles failing /\
  scheduledJobs failing !! "job"%string = Some (Job.mk 0 1700000300001) /\
  scheduledJobs failing_fired !! "job"%string = Some (Job.mk 0 1700000300001).
Proof. vm_compute. repeat split. Qed.

(** C2 (the code departs from it).  A recurring task is registered, so
    that [getTaskStatus] reports it as [scheduled] with a next run; then it
    is paused.  [pauseTask] returns normally, but the task is gone from the
    registry and [getTaskStatus] returns null instead of a [paused] status
    with a null next run. *)
Theorem C2_pause_drops_the_registry_entry :
  snd (getTaskStatus "job" registered) =
    Normal (Some (TaskStatus.mk "job" scheduled (Some (Finite 1700000300001)))) /\
  pauseTask "job" registered = (registered_paused, Normal tt) /\
  tasks registered_paused !! "job"%string = None /\
  getTaskStatus "job" registered_paused = (registered_paused, Normal None).
Proof. vm_compute. repeat split. Qed.

(** C3 (the code departs from it).  A one-time task whose callback throws
    is registered and its timer fires.  The task is still in the registry
    and in [scheduledJobs] afterwards, and [getTaskStatus] still reports it
    as [scheduled] for the date that has passed. *)
Theorem C3_raising_once_task_is_not_retired :
  timerFires utc 0 failing_once = (failing_once_fired, Normal tt) /\
  is_once <$> (interval <$> tasks failing_once_fired !! "job"%string) = Some true /\
  scheduledJobs failing_once_fired !! "job"%string = Some (Job.mk 0 1700000060000) /\
  timers failing_once_fired = ∅ /\
  snd (getTaskStatus "job" failing_once_fired) =
    Normal (Some (TaskStatus.mk "job" scheduled (Some (Finite 1700000060000)))).
Proof. vm_compute. repeat split. Qed.

(** C4 (the code departs from it).  A recurring task is registered and
    paused.  [resumeTask] then throws "Task job not found" and changes
    nothing: the task is not back in the registry and no timer is set. *)
Theorem C4_resume_after_pause_is_not_found :
  pauseTask "job" registered = (registered_paused, Normal tt) /\
  resumeTask utc "job" registered_paused = (registered_paused, Throw (TaskNotFound "job")) /\
  tasks registered_paused !! "job"%string = None /\
  timers registered_paused = ∅.
Proof. vm_compute. repeat split. Qed.

(** C5 (the code departs from it).  A recurring task is registered and
    paused.  A second [pauseTask] throws "Task job not found".  And in a
    world where the task does sit in the registry as [paused], [pauseTask]
    removes it, so the state does not stay as it was. *)
Theorem C5_second_pause_is_not_found :
  pauseTask "job" registered = (registered_paused, Normal tt) /\
  pauseTask "job" registered_paused = (registered_paused, Throw (TaskNotFound "job")) /\
  status <$> tasks held !! "job"%string = Some paused /\
  tasks (fst (pauseTask "job" held)) !! "job"%string = None.
Proof. vm_compute. repeat split. Qed.

(** C6, as the code has it.  When the name is already registered,
    registration fails and leaves registry, [scheduledJobs], timers and
    console as they are.  [scheduleTask] and [scheduleCron] fail with
    "already exists".  [scheduleOnce] checks the date first: for a valid
    date at or before the current time it fails with "must be in the
    future", and for every date that passes the check, with "already
    exists". *)
Theorem C6_taken_name_fails_and_changes_nothing E n w :
  is_Some (tasks w !! n) ->
  (forall cb i o, scheduleTask E n cb i o w = (w, Throw (TaskAlreadyExists n))) /\
  (forall cb e o, scheduleCron E n cb e o w = (w, Throw (TaskAlreadyExists n))) /\
  (forall cb d,
     untouched w (fst (scheduleOnce E n cb d w)) /\
     snd (scheduleOnce E n cb d w) =
       match d with
       | Finite t =>
           if t <=? clock E (reads w) then Throw TimeNotInFuture
           else Throw (TaskAlreadyExists n)
       | NaN => Throw (TaskAlreadyExists n)
       end).
Proof.
  intros Hn. split; [|split].
  - intros. now apply scheduleTask_taken.
  - intros. unfold scheduleCron. now apply scheduleTask_taken.
  - intros cb d. rewrite scheduleOnce_eq.
    assert (Hdup : forall w0, tasks w0 = tasks w ->
              scheduleTask E n cb (Interval.once d) None w0 = (w0, Throw (TaskAlreadyExists n))).
    { intros w0 Hw0. apply scheduleTask_taken. now rewrite Hw0. }
    destruct d as [t|]; cbn [notAfter].
    + destruct (t <=? clock E (reads w)).
      * split; [apply newDate_untouched | reflexivity].
      * rewrite Hdup by reflexivity. split; [apply newDate_untouched | reflexivity].
    + rewrite Hdup by reflexivity. split; [apply newDate_untouched | reflexivity].
Qed.

Lemma C6_witness :
  (forall cb i o,
     scheduleTask utc "job" cb i o registered = (registered, Throw (TaskAlreadyExists "job"))) /\
  (forall cb e o,
     scheduleCron utc "job" cb e o registered = (registered, Throw (TaskAlreadyExists "job"))) /\
  (forall cb d,
     untouched registered (fst (scheduleOnce utc "job" cb d registered)) /\
     snd (scheduleOnce utc "job" cb d registered) =
       match d with
       | Finite t =>
           if t <=? clock utc (reads registered) then Throw TimeNotInFuture
           else Throw (TaskAlreadyExists "job")
       | NaN => Throw (TaskAlreadyExists "job")
       end).
Proof.
  apply (C6_taken_name_fails_and_changes_nothing utc "job" registered).
  vm_compute. eexists. reflexivity.
Defined.

(** C6 as stated fails: "job" is registered, and registering a one-time
    task under that name for a date in the past fails with "must be in the
    future", not with the duplicate error. *)
Lemma C6_counterexample :
  is_Some (tasks registered !! "job"%string) /\
  snd (scheduleOnce utc "job" Returns 1600000000000 registered) = Throw TimeNotInFuture /\
  snd (scheduleOnce utc "job" Returns 1600000000000 registered)
    <> Throw (TaskAlreadyExists "job").
Proof.
  split; [vm_compute; eexists; reflexivity|].
  split; [vm_compute; reflexivity | vm_compute; discriminate].
Qed.

(** C7 (the code departs from it).  An Invalid Date is not after the
    current time, yet the check [date <= new Date()] is false for it:
    [scheduleOnce] with an Invalid Date on a new scheduler returns the
    name, registers the task as [scheduled], records an invalid fire time
    and sets a timer whose delay is NaN. *)
Theorem C7_invalid_date_is_accepted :
  let task := mkTask Returns (Interval.once NaN) ScheduleOptions.empty scheduled in
  let w' := fst (scheduleOnce utc "job" Returns NaN init) in
  notAfter NaN (clock utc 0) = false /\
  snd (scheduleOnce utc "job" Returns NaN init) = Normal "job"%string /\
  tasks w' !! "job"%string = Some task /\
  scheduledJobs w' !! "job"%string = Some (Job.mk 0 NaN) /\
  timers w' !! 0%nat = Some (mkTimer "job" task NaN) /\
  snd (getTaskStatus "job" w') = Normal (Some (TaskStatus.mk "job" scheduled (Some NaN))).
Proof. vm_compute. repeat split. Qed.









(** ** Further properties *)

(** *** Timers and the registry in quiet runs *)







(** *** Names that are not registered, and [paused] *)



(** X4.  In a world the scheduler can be in, [resumeTask] never changes
    anything: it returns for a registered name and throws "not found" for
    any other, and the world is the same afterwards. *)
Theorem X4_resume_changes_nothing E n w :
  reachable E w ->
  resumeTask E n w =
  (w, match tasks w !! n with
      | Some _ => Normal tt
      | None => Throw (TaskNotFound n)
      end).
Proof.
  intros Hr. destruct (tasks w !! n) as [task|] eqn:Ht.
  - apply (resumeTask_scheduled E n w task Ht).
    exact (never_paused w (reachable_sound E w Hr) n task Ht).
  - now apply resumeTask_absent.
Qed.

Lemma X4_witness : resumeTask utc "job" registered = (registered, Normal tt).
Proof.
  apply (X4_resume_changes_nothing utc "job" registered).
  apply run_reachable. constructor.
Defined.

(** *** Registration *)







(** *** Cron and other computed intervals *)

(** X8.  [scheduleCron] under a free name, when the cron evaluator gives
    the date [d] for the expression at the clock reading of the arming:
    the call returns the name; the task is registered as [scheduled] with
    the evaluator as its interval and with options whose type is "cron",
    whatever type the caller gave, the retry options being kept; and one
    timer is set and recorded for [d], whether or not [d] is ahead of the
    clock. *)
Theorem X8_scheduleCron_registers E n cb expr o w d :
  tasks w !! n = None ->
  parseExpression_next E expr (clock E (S (reads w))) = Normal d ->
  let given := default ScheduleOptions.empty o in
  let task :=
    mkTask cb (Interval.computed (parseExpression_next E expr))
           (ScheduleOptions.mk (Some "cron"%string)
              (ScheduleOptions.retryOnError given) (ScheduleOptions.retryDelay given))
           scheduled in
  let w' := fst (scheduleCron E n cb expr o w) in
  snd (scheduleCron E n cb expr o w) = Normal n /\
  tasks w' = <[n := task]> (tasks w) /\
  scheduledJobs w' = <[n := Job.mk (handles w) d]> (scheduledJobs w) /\
  timers w' = <[handles w := mkTimer n task (minus d (clock E (reads w)))]> (timers w).
Proof.
  intros Hn Hd. cbv zeta. unfold scheduleCron.
  rewrite scheduleTask_fresh by exact Hn.
  erewrite scheduleNextRun_computed;
    [|apply lookup_insert_eq|reflexivity|reflexivity|exact Hd].
  cbn. repeat split.
Qed.

Lemma X8_witness :
  snd (scheduleCron utc "tick" Returns "* * * * *" None init) = Normal "tick"%string /\
  scheduledJobs ticking = <[ "tick"%string := Job.mk 0 1700000040000 ]> ∅.
Proof.
  pose proof (X8_scheduleCron_registers utc "tick" Returns "* * * * *" None init
                (Finite 1700000040000) eq_refl eq_refl) as (H1 & _ & H3 & _).
  split; [exact H1 | exact H3].
Defined.




(** *** One name at a time *)













(** *** How names enter and leave the registry *)









(** *** The dispatcher and the console *)

Lemma scheduleTask_console E n cb i o w :
  console (fst (scheduleTask E n cb i o w)) = console w.
Proof.
  destruct (tasks w !! n) as [task|] eqn:Ht.
  - now rewrite scheduleTask_taken by (rewrite Ht; eauto).
  - rewrite scheduleTask_fresh by assumption. cbn [fst].
    now rewrite scheduleNextRun_console.
Qed.

Lemma perform_console E c w : console (fst (perform E c w)) = console w.
Proof.
  rewrite perform_world. destruct c as [n cb i o|n cb e o|n cb d|n|n|n].
  - apply scheduleTask_console.
  - apply scheduleTask_console.
  - rewrite scheduleOnce_eq. destruct (notAfter d (clock E (reads w))); [reflexivity|].
    now rewrite scheduleTask_console.
  - now rewrite cancelTask_eq.
  - rewrite pauseTask_eq. destruct (tasks w !! n); [|reflexivity].
    now rewrite cancelTask_eq.
  - unfold resumeTask. cbv [bind gets modify].
    destruct (tasks w !! n) as [task|]; [|reflexivity].
    destruct (Status_eqb (status task) paused); [|reflexivity].
    change (console (fst (_scheduleNextRun E n
              (set_tasks (insert n (with_status scheduled task)) w))) = console w).
    now rewrite scheduleNextRun_console.
Qed.

Lemma call_console E cb w : console (fst (call E cb w)) = console w.
Proof.
  apply (call_keeps E (fun w' => console w' = console w)); [|reflexivity].
  intros c w' Hw'. now rewrite perform_console.
Qed.

Lemma executeTask_outcome E n task w :
  snd (_executeTask E n task w) = Normal tt /\
  (console (fst (_executeTask E n task w)) = console w \/
   exists e, console (fst (_executeTask E n task w)) = console w ++ [(n, e)]).
Proof.
  rewrite executeTask_eq. pose proof (call_console E (callback task) w) as Hc1.
  destruct (call E (callback task) w) as [w1 [[]|e]]; cbn [fst] in Hc1.
  - destruct (is_once (interval task)); [split; [reflexivity | now left]|].
    pose proof (scheduleNextRun_console E n w1) as Hc.
    unfold try_catch. destruct (_scheduleNextRun E n w1) as [w' [[]|e]]; cbn in *.
    + split; [reflexivity | left; congruence].
    + split; [reflexivity|]. right. exists e. now rewrite Hc, Hc1.
  - split; [reflexivity|]. right. exists e. cbn. now rewrite Hc1.
Qed.

(** X13.  The firing of a timer never throws, in any world: what the
    callback throws and what the re-arming throws is caught.  And the
    console only grows by dispatch: a call of a public method, from
    outside or by a callback, leaves it as it is, and the firing of a
    timer adds nothing or exactly one line, under the name in the timer's
    closure. *)
Theorem X13_dispatch_never_throws E w :
  (forall id, snd (timerFires E id w) = Normal tt) /\
  (forall ev,
     console (step E ev w) = console w \/
     exists id t e,
       ev = TimerFires id /\ timers w !! id = Some t /\
       console (step E ev w) = console w ++ [(forName t, e)]).
Proof.
  assert (Hfire : forall id,
    snd (timerFires E id w) = Normal tt /\
    (console (fst (timerFires E id w)) = console w \/
     exists t e, timers w !! id = Some t /\
       console (fst (timerFires E id w)) = console w ++ [(forName t, e)])).
  { intros id. unfold timerFires. cbv [bind gets modify].
    destruct (timers w !! id) as [t|]; [|split; [reflexivity | now left]].
    destruct (executeTask_outcome E (forName t) (forTask t) (set_timers (delete id) w))
      as (Hret & [Hc|(e & Hc)]).
    - split; [exact Hret | left; exact Hc].
    - split; [exact Hret|]. right. exists t, e. split; [reflexivity | exact Hc]. }
  split; [intros id; apply Hfire|].
  intros [c|id]; cbn [step].
  - left. apply perform_console.
  - destruct (Hfire id) as (_ & [Hc|(t & e & Hp & Hc)]); [now left|].
    right. now exists id, t, e.
Qed.




(** X15.  On a registered name, [pauseTask] does exactly what [cancelTask]
    does, in any world: same result and same world afterwards, the
    assignment of [paused] being lost with the registry entry. *)
Theorem X15_pause_of_a_registered_name_is_cancel n w :
  is_Some (tasks w !! n) -> pauseTask n w = cancelTask n w.
Proof. intros [task Ht]. now rewrite pauseTask_eq, Ht. Qed.

Lemma X15_witness : pauseTask "job" registered = cancelTask "job" registered.
Proof.
  apply X15_pause_of_a_registered_name_is_cancel. vm_compute. eexists. reflexivity.
Defined.

(** X16.  In a world the scheduler can be in, whatever [getTaskStatus]
    returns for a name other than null carries that name, the status
    [scheduled] and never [paused], and as next run the fire time recorded
    for the name, or null when nothing is recorded; and it is returned for
    registered names only. *)
Theorem X16_status_is_never_paused E n w r :
  reachable E w -> snd (getTaskStatus n w) = Normal (Some r) ->
  is_Some (tasks w !! n) /\
  TaskStatus.name r = n /\
  TaskStatus.status r = scheduled /\
  TaskStatus.nextRun r = Job.scheduledTime <$> scheduledJobs w !! n.
Proof.
  intros Hr. destruct (tasks w !! n) as [task|] eqn:Ht.
  - rewrite (getTaskStatus_present n w task Ht). cbn. intros [= <-]. cbn.
    split; [eauto|]. split; [reflexivity|]. split; [|reflexivity].
    exact (never_paused w (reachable_sound E w Hr) n task Ht).
  - rewrite (getTaskStatus_absent n w Ht). cbn. discriminate.
Qed.

Lemma X16_witness :
  is_Some (tasks registered !! "job"%string) /\
  TaskStatus.name (TaskStatus.mk "job" scheduled (Some (Finite 1700000300001))) = "job"%string /\
  TaskStatus.status (TaskStatus.mk "job" scheduled (Some (Finite 1700000300001))) = scheduled /\
  TaskStatus.nextRun (TaskStatus.mk "job" scheduled (Some (Finite 1700000300001)))
  = Job.scheduledTime <$> scheduledJobs registered !! "job"%string.
Proof.
  apply (X16_status_is_never_paused utc "job" registered).
  - apply run_reachable. constructor.
  - vm_compute. reflexivity.
Defined.

(** X17.  [scheduleOnce] with a valid date.  When the date is at or before
    the current time, the call throws "must be in the future" and neither
    registers a task nor sets a timer.  When it is after the current time,
    the call is [scheduleTask] with the interval [{ type: 'once', date }]
    and no options: under a name that is free, the task is registered as
    [scheduled] and one timer is set and recorded for that very date. *)
Theorem X17_once_with_a_valid_date E n cb (d : Z) w :
  (d <= clock E (reads w) ->
     snd (scheduleOnce E n cb d w) = Throw TimeNotInFuture /\
     untouched w (fst (scheduleOnce E n cb d w))) /\
  (clock E (reads w) < d ->
     scheduleOnce E n cb d w =
     scheduleTask E n cb (Interval.once d) None (fst (newDate E w)) /\
     (tasks w !! n = None ->
      let task := mkTask cb (Interval.once d) ScheduleOptions.empty scheduled in
      let w' := fst (scheduleOnce E n cb d w) in
      snd (scheduleOnce E n cb d w) = Normal n /\
      tasks w' = <[n := task]> (tasks w) /\
      scheduledJobs w' = <[n := Job.mk (handles w) d]> (scheduledJobs w) /\
      timers w' =
        <[handles w := mkTimer n task (Finite (d - clock E (S (reads w))))]> (timers w))).
Proof.
  rewrite scheduleOnce_eq. cbn [notAfter]. split; intros Hd.
  - apply Z.leb_le in Hd. rewrite Hd. split; [reflexivity | apply newDate_untouched].
  - apply Z.leb_gt in Hd. rewrite Hd. split; [reflexivity|].
    intros Hn. rewrite scheduleTask_fresh by exact Hn.
    erewrite scheduleNextRun_once; [|apply lookup_insert_eq|reflexivity|reflexivity].
    cbn. repeat split.
Qed.

Lemma X17_witness :
  (snd (scheduleOnce utc "job" Returns 1700000000000 init) = Throw TimeNotInFuture /\
   untouched init (fst (scheduleOnce utc "job" Returns 1700000000000 init))) /\
  scheduleOnce utc "job" Returns 1700000060000 init =
  scheduleTask utc "job" Returns (Interval.once 1700000060000) None (fst (newDate utc init)) /\
  snd (scheduleOnce utc "job" Returns 1700000060000 init) = Normal "job"%string.
Proof.
  split.
  - apply (X17_once_with_a_valid_date utc "job" Returns 1700000000000 init).
    vm_compute. discriminate.
  - assert (Hd : clock utc (reads init) < 1700000060000) by (vm_compute; reflexivity).
    destruct (proj2 (X17_once_with_a_valid_date utc "job" Returns 1700000060000 init) Hd)
      as [Heq Hfresh].
    split; [exact Heq|]. apply Hfresh. reflexivity.
Defined.
